(** * mio: memory-mapped file regions

    A model of [include/mio/mmap.hpp]: the public class template
    [mio::basic_mmap<AccessMode, CharT>], its two mapping constructors and the
    factory functions [make_mmap], [make_mmap_source] and [make_mmap_sink].

    The class forwards every call to a member [impl_] of type
    [detail::basic_mmap<CharT>], declared in [detail/basic_mmap.hpp].  That
    header is not part of this tree; module [detail] below models it from the
    specification, with the operating system as a record of oracles and an
    event trace. *)

From Stdlib Require Import ZArith List Bool Lia String.
Import ListNotations.
Local Open Scope Z_scope.

(** ** [size_type] and [int64_t] *)

(** Modelled from the spec: the width of [size_type], whose declaration is in
    [detail/basic_mmap.hpp]; taken as an unsigned 64-bit integer. *)
Definition size_bits : Z := 64.

Definition size_modulus : Z := 2 ^ size_bits.

(** Unsigned arithmetic wraps around. *)
Definition wrap_size (z : Z) : Z := z mod size_modulus.

(** Implicit conversion of a [size_type] argument to an [int64_t] parameter. *)
Definition int64_of_size (z : Z) : Z :=
  if z <? 2 ^ 63 then z else z - size_modulus.

(** Implicit conversion of an [int64_t] argument to a [size_type] parameter. *)
Definition size_of_int64 (i : Z) : Z := i mod size_modulus.

(** ** [access_mode] *)

Inductive access_mode : Type := read | write.

Definition access_mode_eqb (a b : access_mode) : bool :=
  match a, b with
  | read, read | write, write => true
  | _, _ => false
  end.

(** ** Exceptions and call outcomes *)

(** Modelled from the spec: the error taxonomy of section 7, in place of the
    host's error values; an [std::error_code] is either clear or holds one of
    these. *)
Inductive errc : Type :=
| handle_open_failure
| os_mapping_failure
| size_query_failure
| invalid_argument
| sync_failure.

(** [std::error_code]: [None] is the cleared value, the one for which
    [if(error)] is false. *)
Definition error_code : Type := option errc.

(** What a [throw] expression of this library can throw: an
    [std::error_code] by value, or [std::invalid_argument]. *)
Inductive exn : Type :=
| exn_error_code (e : errc)
| exn_invalid_argument.

Definition derives_from_std_exception (x : exn) : bool :=
  match x with
  | exn_error_code _ => false
  | exn_invalid_argument => true
  end.

(** How a call that may throw ends: it returns, an exception leaves it (the
    object is then in state [a]), or [std::terminate] ends the program.  A
    member modelled as a plain function always returns. *)
Inductive outcome (A : Type) : Type :=
| returned (a : A)
| thrown (x : exn) (a : A)
| terminated.

Arguments returned {A} a.
Arguments thrown {A} x a.
Arguments terminated {A}.

Definition outcome_map {A B : Type} (f : A -> B) (o : outcome A) : outcome B :=
  match o with
  | returned a => returned (f a)
  | thrown x a => thrown x (f a)
  | terminated => terminated
  end.

(** A function declared [noexcept]: an exception that would leave it calls
    [std::terminate] instead. *)
Definition noexcept {A : Type} (o : outcome A) : outcome A :=
  match o with
  | thrown _ _ => terminated
  | _ => o
  end.

(** ** [detail::basic_mmap] *)

Module detail.

(** Modelled from the spec: [handle_type] and [pointer], declared in the
    missing header; a file handle and an address are integers. *)
Definition handle : Type := Z.

Definition pointer : Type := Z.

(** Modelled from the spec: the handle value of an instance that holds no
    file. *)
Definition invalid_handle : handle := -1.

(** Modelled from the spec: the calls made to the external collaborators of
    section 6, in order. *)
Inductive os_event : Type :=
| ev_open (path : string) (h : handle)
| ev_close (h : handle)
| ev_mmap (h : handle) (os_offset os_length : Z) (base : pointer)
| ev_munmap (base : pointer) (os_length : Z).

Definition trace : Type := list os_event.

Definition is_mmap_event (e : os_event) : bool :=
  match e with
  | ev_mmap _ _ _ _ => true
  | _ => false
  end.

(** Number of OS mappings created so far. *)
Definition mappings_created (w : trace) : nat :=
  List.length (filter is_mmap_event w).

(** Modelled from the spec: the external collaborators of section 6 (the
    file-opening service, the size query, the OS mapping call, the page
    granularity) and the [map_entire_file] sentinel, whose value is declared
    in the missing header. *)
Record Platform : Type := {
  granularity : Z;
  map_entire_file : Z;
  open_file : string -> access_mode -> option handle;
  query_file_size : handle -> option Z;
  os_mmap : handle -> Z -> Z -> access_mode -> option pointer;
  mapping_handle_of : handle -> handle
}.

(** Modelled from the spec: the data members of [detail::basic_mmap<CharT>]
    (section 3, "Mapped Region"); lengths and offsets are in bytes.
    [offset_] is the requested offset that [offset()] reports. *)
Record basic_mmap : Type := {
  data_ : option pointer;
  length_ : Z;
  mapped_length_ : Z;
  offset_ : Z;
  offset_delta_ : Z;
  file_handle_ : handle;
  mapping_handle_ : handle;
  is_handle_internal_ : bool
}.

(** Modelled from the spec: the default-constructed, unmapped state. *)
Definition default_mmap : basic_mmap := {|
  data_ := None;
  length_ := 0;
  mapped_length_ := 0;
  offset_ := 0;
  offset_delta_ := 0;
  file_handle_ := invalid_handle;
  mapping_handle_ := invalid_handle;
  is_handle_internal_ := false
|}.

(** Modelled from the spec: [is_open], absent from this tree;
    [data_pointer] is null exactly when unmapped. *)
Definition is_open (s : basic_mmap) : bool :=
  match data_ s with
  | Some _ => true
  | None => false
  end.

(** Modelled from the spec: [length], the requested length in bytes. *)
Definition length (s : basic_mmap) : Z := length_ s.

(** Modelled from the spec: [mapped_length], the OS-mapped byte count. *)
Definition mapped_length (s : basic_mmap) : Z := mapped_length_ s.

(** Modelled from the spec: [offset], the requested offset in bytes. *)
Definition offset (s : basic_mmap) : Z := offset_ s.

(** Modelled from the spec: [data], the address of the first requested
    byte, [None] for [nullptr]. *)
Definition data (s : basic_mmap) : option pointer := data_ s.

(** Modelled from the spec: [file_handle]. *)
Definition file_handle (s : basic_mmap) : handle := file_handle_ s.

(** Modelled from the spec: [mapping_handle]. *)
Definition mapping_handle (s : basic_mmap) : handle := mapping_handle_ s.

(** Modelled from the spec: [empty], absent from this tree; the wrapper's
    comment reads "returns if the length that was mapped was 0". *)
Definition empty (s : basic_mmap) : bool := length_ s =? 0.

(** Modelled from the spec: [unmap] (section 4.2).  Releases the OS mapping
    if there is one, closes the file handle only when it was opened
    internally, and is a no-op on an unmapped instance. *)
Definition unmap (s : basic_mmap) (w : trace) : basic_mmap * trace :=
  match data_ s with
  | None => (s, w)
  | Some p =>
      (default_mmap,
       w ++ ev_munmap (p - offset_delta_ s) (mapped_length_ s)
         :: (if is_handle_internal_ s then [ev_close (file_handle_ s)] else []))
  end.

(** Modelled from the spec: what the Aligned Region Calculator of section
    4.1 produces, with the requested length in bytes. *)
Record aligned_region : Type := {
  aligned_os_offset : Z;
  os_map_length : Z;
  offset_delta : Z;
  requested_length : Z
}.

(** Modelled from the spec: the Aligned Region Calculator (section 4.1). *)
Definition calculate_region (P : Platform) (h : handle) (offset num_bytes : Z)
  : errc + aligned_region :=
  match query_file_size P h with
  | None => inl size_query_failure
  | Some file_size =>
      if file_size <? offset then inl invalid_argument
      else
        let aligned := offset - offset mod granularity P in
        let delta := offset - aligned in
        let entire := num_bytes =? map_entire_file P in
        inr {| aligned_os_offset := aligned;
               os_map_length :=
                 if entire then file_size - aligned else num_bytes + delta;
               offset_delta := delta;
               requested_length :=
                 if entire then file_size - offset else num_bytes |}
  end.

(** Modelled from the spec: the mapping step shared by both [map]
    overloads (sections 4.1, 4.2 and 7).  A failure leaves [s] as it was; a
    success replaces the previous mapping, which is released. *)
Definition map_region (P : Platform) (s : basic_mmap) (w : trace)
    (h : handle) (internal : bool) (offset num_bytes : Z) (mode : access_mode)
  : basic_mmap * trace * error_code :=
  match calculate_region P h offset num_bytes with
  | inl e => (s, w, Some e)
  | inr r =>
      match os_mmap P h (aligned_os_offset r) (os_map_length r) mode with
      | None => (s, w, Some os_mapping_failure)
      | Some base =>
          let w1 := w ++ [ev_mmap h (aligned_os_offset r) (os_map_length r) base] in
          ({| data_ := Some (base + offset_delta r);
              length_ := requested_length r;
              mapped_length_ := os_map_length r;
              offset_ := offset;
              offset_delta_ := offset_delta r;
              file_handle_ := h;
              mapping_handle_ := mapping_handle_of P h;
              is_handle_internal_ := internal |},
           snd (unmap s w1), None)
      end
  end.

(** Modelled from the spec: [map] from a pre-opened handle.  A request of
    length 0 creates no OS mapping and leaves the instance unmapped
    (section 4.3). *)
Definition map_handle (P : Platform) (s : basic_mmap) (w : trace)
    (h : handle) (offset num_bytes : Z) (mode : access_mode)
  : basic_mmap * trace * error_code :=
  if num_bytes =? 0 then (unmap s w, None)
  else map_region P s w h false offset num_bytes mode.

(** Modelled from the spec: [map] from a path.  The file is opened first and
    the handle is owned; it is closed again when the mapping fails. *)
Definition map_path (P : Platform) (s : basic_mmap) (w : trace)
    (path : string) (offset num_bytes : Z) (mode : access_mode)
  : basic_mmap * trace * error_code :=
  if num_bytes =? 0 then (unmap s w, None)
  else
    match open_file P path mode with
    | None => (s, w, Some handle_open_failure)
    | Some h =>
        match map_region P s (w ++ [ev_open path h]) h true offset num_bytes mode with
        | (s', w', None) => (s', w', None)
        | (_, w', Some e) => (s, w' ++ [ev_close h], Some e)
        end
    end.

(** Modelled from the spec: [set_length] (section 4.3), on byte counts.  The
    wrapper's comment says [std::invalid_argument] is thrown. *)
Definition set_length (s : basic_mmap) (num_bytes : Z) : outcome basic_mmap :=
  if mapped_length_ s <? num_bytes + offset_delta_ s
  then thrown exn_invalid_argument s
  else returned {| data_ := data_ s;
                   length_ := num_bytes;
                   mapped_length_ := mapped_length_ s;
                   offset_ := offset_ s;
                   offset_delta_ := offset_delta_ s;
                   file_handle_ := file_handle_ s;
                   mapping_handle_ := mapping_handle_ s;
                   is_handle_internal_ := is_handle_internal_ s |}.

(** Modelled from the spec: [set_offset] (section 4.3), "analogous, bounded
    by [mapped_length]". *)
Definition set_offset (s : basic_mmap) (num_bytes : Z) : outcome basic_mmap :=
  if mapped_length_ s <? num_bytes
  then thrown exn_invalid_argument s
  else returned {| data_ := data_ s;
                   length_ := length_ s;
                   mapped_length_ := mapped_length_ s;
                   offset_ := num_bytes;
                   offset_delta_ := offset_delta_ s;
                   file_handle_ := file_handle_ s;
                   mapping_handle_ := mapping_handle_ s;
                   is_handle_internal_ := is_handle_internal_ s |}.

End detail.

(** Counts the mapping calls in a trace extended by explicit events. *)
Ltac count_events :=
  unfold detail.mappings_created;
  rewrite ?filter_app, ?length_app; simpl; lia.

(** ** [mio::basic_mmap<AccessMode, CharT>] *)

(** The class has one data member, [impl_]. *)
Record basic_mmap : Type := { impl_ : detail.basic_mmap }.

(** [basic_mmap() = default]. *)
Definition default_basic_mmap : basic_mmap := {| impl_ := detail.default_mmap |}.

(** The [MappingToken] of the factory templates: a [String] or a file
    handle; it selects the [map] overload. *)
Inductive MappingToken : Type :=
| token_path (path : string)
| token_handle (h : detail.handle).

Section BasicMmap.

(** The template parameters; [CharT] matters through [sizeof(CharT)] only. *)
Variable P : detail.Platform.
Variable AccessMode : access_mode.
Variable sizeof_CharT : Z.

Definition file_handle (m : basic_mmap) : detail.handle :=
  detail.file_handle (impl_ m).

Definition mapping_handle (m : basic_mmap) : detail.handle :=
  detail.mapping_handle (impl_ m).

Definition is_open (m : basic_mmap) : bool := detail.is_open (impl_ m).

Definition empty (m : basic_mmap) : bool := detail.empty (impl_ m).

(** [return num_bytes >> (sizeof(CharT) - 1);] *)
Definition char_size (num_bytes : Z) : Z :=
  Z.shiftr num_bytes (sizeof_CharT - 1).

(** [return num_bytes << (sizeof(CharT) - 1);] *)
Definition byte_size (num_bytes : Z) : Z :=
  wrap_size (Z.shiftl num_bytes (sizeof_CharT - 1)).

Definition size (m : basic_mmap) : Z := char_size (detail.length (impl_ m)).

Definition length (m : basic_mmap) : Z := char_size (detail.length (impl_ m)).

Definition mapped_length (m : basic_mmap) : Z :=
  char_size (detail.mapped_length (impl_ m)).

Definition offset (m : basic_mmap) : Z := char_size (detail.offset (impl_ m)).

(** The [const] overload of [data()]; [None] is [nullptr]. *)
Definition data (m : basic_mmap) : option detail.pointer :=
  detail.data (impl_ m).

(** [void set_length(const size_type length) noexcept] *)
Definition set_length (m : basic_mmap) (length : Z) : outcome basic_mmap :=
  noexcept (outcome_map Build_basic_mmap
              (detail.set_length (impl_ m) (byte_size length))).

(** [void set_offset(const size_type offset) noexcept] *)
Definition set_offset (m : basic_mmap) (offset : Z) : outcome basic_mmap :=
  noexcept (outcome_map Build_basic_mmap
              (detail.set_offset (impl_ m) (byte_size offset))).

(** [map(const String& path, offset, num_bytes, error)]: the new state, the
    OS trace and the value left in [error]. *)
Definition map_path (m : basic_mmap) (w : detail.trace) (path : string)
    (offset num_bytes : Z) : basic_mmap * detail.trace * error_code :=
  let '(s, w', error) :=
    detail.map_path P (impl_ m) w path offset num_bytes AccessMode in
  ({| impl_ := s |}, w', error).

(** [map(const handle_type handle, offset, num_bytes, error)] *)
Definition map_handle (m : basic_mmap) (w : detail.trace) (h : detail.handle)
    (offset num_bytes : Z) : basic_mmap * detail.trace * error_code :=
  let '(s, w', error) :=
    detail.map_handle P (impl_ m) w h offset num_bytes AccessMode in
  ({| impl_ := s |}, w', error).

(** [mmap.map(token, ...)] in a template: overload resolution on the token. *)
Definition map (m : basic_mmap) (w : detail.trace) (token : MappingToken)
    (offset num_bytes : Z) : basic_mmap * detail.trace * error_code :=
  match token with
  | token_path path => map_path m w path offset num_bytes
  | token_handle h => map_handle m w h offset num_bytes
  end.

(** [void unmap() { impl_.unmap(); }] *)
Definition unmap (m : basic_mmap) (w : detail.trace) : basic_mmap * detail.trace :=
  let '(s, w') := detail.unmap (impl_ m) w in ({| impl_ := s |}, w').

(** The path-taking constructor:
    [std::error_code error; map(path, offset, num_bytes, error);
     if(error) { throw error; }] *)
Definition basic_mmap_from_path (w : detail.trace) (path : string)
    (offset num_bytes : Z) : outcome (basic_mmap * detail.trace) :=
  let '(m, w', error) := map_path default_basic_mmap w path offset num_bytes in
  match error with
  | Some e => thrown (exn_error_code e) (m, w')
  | None => returned (m, w')
  end.

End BasicMmap.

(** ** The factory functions *)

(** [make_mmap<MMap>(token, int64_t offset, int64_t num_bytes, error)]:
    [MMap mmap; mmap.map(token, offset, num_bytes, error); return mmap;].
    [MMap] fixes the access mode; the [int64_t] arguments convert to
    [size_type] at the call of [map]. *)
Definition make_mmap (P : detail.Platform) (AccessMode : access_mode)
    (w : detail.trace) (token : MappingToken) (offset num_bytes : Z)
  : basic_mmap * detail.trace * error_code :=
  let mmap := default_basic_mmap in
  map P AccessMode mmap w token (size_of_int64 offset) (size_of_int64 num_bytes).

(** [mmap_source] is [basic_mmap<access_mode::read, char>]; the [size_type]
    arguments convert to the [int64_t] parameters of [make_mmap]. *)
Definition make_mmap_source (P : detail.Platform) (w : detail.trace)
    (token : MappingToken) (offset num_bytes : Z)
  : basic_mmap * detail.trace * error_code :=
  make_mmap P read w token (int64_of_size offset) (int64_of_size num_bytes).

(** [mmap_sink] is [basic_mmap<access_mode::write, char>]. *)
Definition make_mmap_sink (P : detail.Platform) (w : detail.trace)
    (token : MappingToken) (offset num_bytes : Z)
  : basic_mmap * detail.trace * error_code :=
  make_mmap P write w token (int64_of_size offset) (int64_of_size num_bytes).

(** The factories as the specification words them: default-construct the
    mapping type, then call its [map] member with the same arguments. *)
Definition default_construct_then_map (P : detail.Platform)
    (AccessMode : access_mode) (w : detail.trace) (token : MappingToken)
    (offset num_bytes : Z) : basic_mmap * detail.trace * error_code :=
  map P AccessMode default_basic_mmap w token offset num_bytes.

(** ** States an instance can be in *)

(** The states reached from default construction through the mutating
    members [map], [unmap], [set_length] and [set_offset]; [swap] and the
    move operations only hand such states from one instance to another. *)
Inductive reachable (P : detail.Platform) (A : access_mode) (cs : Z)
  : basic_mmap -> Prop :=
| reach_default : reachable P A cs default_basic_mmap
| reach_map m w token offset num_bytes :
    reachable P A cs m ->
    reachable P A cs (fst (fst (map P A m w token offset num_bytes)))
| reach_unmap m w :
    reachable P A cs m -> reachable P A cs (fst (unmap m w))
| reach_set_length m n m' :
    reachable P A cs m -> set_length cs m n = returned m' -> reachable P A cs m'
| reach_set_offset m n m' :
    reachable P A cs m -> set_offset cs m n = returned m' -> reachable P A cs m'.

(** ** The accessor overload set *)

(** The accessors of the class and [sync], one constructor per declaration;
    [_const] marks a [const]-qualified overload. *)
Inductive member_fn : Type :=
| mf_data | mf_data_const
| mf_begin | mf_begin_const | mf_cbegin
| mf_end | mf_end_const | mf_cend
| mf_rbegin | mf_rbegin_const | mf_crbegin
| mf_rend | mf_rend_const | mf_crend
| mf_index | mf_index_const
| mf_sync.

Definition all_member_fns : list member_fn :=
  [mf_data; mf_data_const; mf_begin; mf_begin_const; mf_cbegin;
   mf_end; mf_end_const; mf_cend; mf_rbegin; mf_rbegin_const; mf_crbegin;
   mf_rend; mf_rend_const; mf_crend; mf_index; mf_index_const; mf_sync].

Inductive return_type : Type :=
| rt_pointer | rt_const_pointer
| rt_iterator | rt_const_iterator
| rt_reverse_iterator | rt_const_reverse_iterator
| rt_reference | rt_const_reference
| rt_void.

(** The declared return type of each member. *)
Definition return_type_of (f : member_fn) : return_type :=
  match f with
  | mf_data => rt_pointer
  | mf_data_const => rt_const_pointer
  | mf_begin => rt_iterator
  | mf_begin_const | mf_cbegin => rt_const_iterator
  | mf_end => rt_iterator
  | mf_end_const | mf_cend => rt_const_iterator
  | mf_rbegin => rt_reverse_iterator
  | mf_rbegin_const | mf_crbegin => rt_const_reverse_iterator
  | mf_rend => rt_reverse_iterator
  | mf_rend_const | mf_crend => rt_const_reverse_iterator
  | mf_index => rt_reference
  | mf_index_const => rt_const_reference
  | mf_sync => rt_void
  end.

(** A return type through which the mapped bytes can be written. *)
Definition grants_mutable_access (r : return_type) : bool :=
  match r with
  | rt_pointer | rt_iterator | rt_reverse_iterator | rt_reference => true
  | _ => false
  end.

(** The members declared under
    [template<access_mode A = AccessMode,
              typename = typename std::enable_if<A == access_mode::write>::type>]. *)
Definition enable_if_write (f : member_fn) : bool :=
  match f with
  | mf_data | mf_end | mf_rbegin | mf_rend | mf_sync => true
  | _ => false
  end.

(** Whether the overload [f] is there for a call [m.f(...)] on a non-const
    [basic_mmap<A, CharT>] that leaves the guard's template argument to its
    default, [AccessMode]. *)
Definition available (A : access_mode) (f : member_fn) : bool :=
  if enable_if_write f then access_mode_eqb A write else true.

(** A write capability: mutable access to the bytes, or [sync]. *)
Definition write_capability (f : member_fn) : bool :=
  grants_mutable_access (return_type_of f)
  || match f with mf_sync => true | _ => false end.

(** The write capabilities a read-mode instance can still call. *)
Definition read_mode_leaks : list member_fn :=
  filter (fun f => write_capability f && available read f) all_member_fns.

(** ** The calls to [map] in the two mapping constructors *)

Inductive cxx_type : Type :=
| ty_String | ty_handle_type | ty_size_type | ty_error_code
| ty_member_function.

Definition cxx_type_eqb (a b : cxx_type) : bool :=
  match a, b with
  | ty_String, ty_String
  | ty_handle_type, ty_handle_type
  | ty_size_type, ty_size_type
  | ty_error_code, ty_error_code
  | ty_member_function, ty_member_function => true
  | _, _ => false
  end.

(** Names declared in the path-taking constructor: its parameters and the
    local [error]. *)
Definition path_ctor_scope : list (string * cxx_type) :=
  [("path", ty_String); ("offset", ty_size_type);
   ("num_bytes", ty_size_type); ("error", ty_error_code)]%string.

(** Names declared in the handle-taking constructor. *)
Definition handle_ctor_scope : list (string * cxx_type) :=
  [("handle", ty_handle_type); ("offset", ty_size_type);
   ("num_bytes", ty_size_type); ("error", ty_error_code)]%string.

(** The member functions of the class, found by a name that no parameter or
    local hides. *)
Definition member_function_names : list string :=
  ["file_handle"; "mapping_handle"; "is_open"; "empty"; "size"; "length";
   "mapped_length"; "offset"; "data"; "begin"; "cbegin"; "end"; "cend";
   "rbegin"; "crbegin"; "rend"; "crend"; "set_length"; "set_offset"; "map";
   "unmap"; "swap"; "sync"; "char_size"; "byte_size"]%string.

(** Unqualified name lookup inside a constructor body. *)
Definition resolve (scope : list (string * cxx_type)) (name : string)
  : option cxx_type :=
  match find (fun d => String.eqb (fst d) name) scope with
  | Some d => Some (snd d)
  | None =>
      if existsb (String.eqb name) member_function_names
      then Some ty_member_function
      else None
  end.

(** [map(path, offset, num_bytes, error);] *)
Definition path_ctor_map_args : list string :=
  ["path"; "offset"; "num_bytes"; "error"]%string.

(** [map(handle, offset, length, error);] *)
Definition handle_ctor_map_args : list string :=
  ["handle"; "offset"; "length"; "error"]%string.

(** The parameter types of the two [map] overloads. *)
Definition map_path_params : list cxx_type :=
  [ty_String; ty_size_type; ty_size_type; ty_error_code].

Definition map_handle_params : list cxx_type :=
  [ty_handle_type; ty_size_type; ty_size_type; ty_error_code].

Fixpoint args_match (args : list (option cxx_type)) (params : list cxx_type)
  : bool :=
  match args, params with
  | [], [] => true
  | Some a :: args', p :: params' => cxx_type_eqb a p && args_match args' params'
  | _, _ => false
  end.

(** Whether the call to [map] in a constructor body is well-formed. *)
Definition call_well_formed (scope : list (string * cxx_type))
    (args : list string) (params : list cxx_type) : bool :=
  args_match (List.map (resolve scope) args) params.

(** ** A concrete platform *)

(** One file of 8192 bytes, [data.bin], on a system with 4096-byte pages;
    every mapping of it succeeds at address 65536. *)
Definition demo_platform : detail.Platform := {|
  detail.granularity := 4096;
  detail.map_entire_file := size_modulus - 1;
  detail.open_file := fun path _ =>
    if String.eqb path "data.bin" then Some 3 else None;
  detail.query_file_size := fun h => if h =? 3 then Some 8192 else None;
  detail.os_mmap := fun h _ _ _ => if h =? 3 then Some 65536 else None;
  detail.mapping_handle_of := fun h => h
|}.

(** The instance obtained by mapping the first 4096 bytes of [data.bin]
    for reading. *)
Definition demo_mapped : basic_mmap :=
  fst (fst (map demo_platform read default_basic_mmap []
              (token_path "data.bin") 0 4096)).

(** ** The handle of a [map] request *)


(** * Properties *)

(** ** Element counts and byte counts *)

Lemma size_modulus_pos : 0 < size_modulus.
Proof. reflexivity. Qed.

Lemma wrap_size_nonneg (z : Z) : 0 <= wrap_size z.
Proof.
  unfold wrap_size.
  pose proof (Z.mod_pos_bound z size_modulus size_modulus_pos). lia.
Qed.

Lemma wrap_size_small (z : Z) : 0 <= z < size_modulus -> wrap_size z = z.
Proof. intros Hz. unfold wrap_size. now apply Z.mod_small. Qed.

(** The right shift is a division by a power of two, not by [sizeof(CharT)]. *)
Lemma char_size_div_pow2 (cs n : Z) :
  1 <= cs -> char_size cs n = n / 2 ^ (cs - 1).
Proof. intros Hcs. unfold char_size. apply Z.shiftr_div_pow2. lia. Qed.

Lemma byte_size_mul_pow2 (cs n : Z) :
  1 <= cs -> byte_size cs n = wrap_size (n * 2 ^ (cs - 1)).
Proof.
  intros Hcs. unfold byte_size. f_equal. apply Z.shiftl_mul_pow2. lia.
Qed.

Lemma byte_size_nonneg (cs n : Z) : 0 <= byte_size cs n.
Proof. apply wrap_size_nonneg. Qed.

(** The two shifts undo each other as long as the left shift does not
    overflow, whatever the element size. *)
Lemma char_size_byte_size (cs n : Z) :
  1 <= cs -> 0 <= n -> n * 2 ^ (cs - 1) < size_modulus ->
  char_size cs (byte_size cs n) = n.
Proof.
  intros Hcs Hn Hfit.
  assert (Hpow : 0 < 2 ^ (cs - 1)) by (apply Z.pow_pos_nonneg; lia).
  rewrite byte_size_mul_pow2, char_size_div_pow2 by assumption.
  rewrite wrap_size_small by nia.
  apply Z.div_mul. lia.
Qed.

(** C1.  [char_size] and [byte_size] shift by [sizeof(CharT) - 1]: that is
    the division and the multiplication by [sizeof(CharT)] for elements of
    one and two bytes, and neither for an element of four bytes, where 8
    bytes count as 1 element instead of 2 and 8 elements as 64 bytes instead
    of 32. *)
Theorem char_size_byte_size_shift_by_sizeof_minus_one :
  (forall n, char_size 1 n = n / 1 /\ byte_size 1 n = wrap_size (n * 1)) /\
  (forall n, char_size 2 n = n / 2 /\ byte_size 2 n = wrap_size (n * 2)) /\
  char_size 4 8 = 1 /\ 8 / 4 = 2 /\
  byte_size 4 8 = 64 /\ wrap_size (8 * 4) = 32.
Proof.
  split; [| split].
  - intros n. split.
    + now rewrite char_size_div_pow2.
    + now rewrite byte_size_mul_pow2.
  - intros n. split.
    + now rewrite char_size_div_pow2.
    + now rewrite byte_size_mul_pow2.
  - repeat split; reflexivity.
Qed.

(** ** The constructors' calls to [map] *)

(** C2.  The path-taking constructor passes its [num_bytes] parameter to
    [map]; the handle-taking constructor does not: its third argument is the
    name [length], which no parameter or local declares and which lookup
    finds as the member function, so the call is ill-formed and no region is
    mapped from [num_bytes]. *)
Theorem handle_ctor_passes_length_not_num_bytes :
  call_well_formed path_ctor_scope path_ctor_map_args map_path_params = true /\
  existsb (String.eqb "num_bytes") path_ctor_map_args = true /\
  call_well_formed handle_ctor_scope handle_ctor_map_args map_handle_params = false /\
  existsb (String.eqb "num_bytes") handle_ctor_map_args = false /\
  nth_error handle_ctor_map_args 2 = Some "length"%string /\
  resolve handle_ctor_scope "length" = Some ty_member_function.
Proof. repeat split; reflexivity. Qed.

(** ** Read mode and the write capabilities *)

Lemma all_member_fns_complete (f : member_fn) : In f all_member_fns.
Proof. destruct f; simpl; tauto. Qed.

Lemma available_write (f : member_fn) : available write f = true.
Proof. unfold available. now destruct (enable_if_write f). Qed.

Lemma available_read_iff (f : member_fn) :
  available read f = true <-> enable_if_write f = false.
Proof. unfold available. destruct (enable_if_write f); simpl; intuition congruence. Qed.

(** C3.  In read mode the guarded members [data], [end], [rbegin], [rend]
    (non-const) and [sync] are excluded at the type level, but the non-const
    [begin] and [operator[]] carry no guard: a read-mode instance still
    offers them, and they return [iterator] and [reference]. *)
Theorem read_mode_keeps_mutable_begin_and_index :
  read_mode_leaks = [mf_begin; mf_index] /\
  available read mf_begin = true /\
  grants_mutable_access (return_type_of mf_begin) = true /\
  available read mf_index = true /\
  grants_mutable_access (return_type_of mf_index) = true /\
  forallb (fun f => negb (available read f))
          [mf_data; mf_end; mf_rbegin; mf_rend; mf_sync] = true.
Proof. repeat split; reflexivity. Qed.

(** ** The OS trace *)

Lemma mappings_created_app (w1 w2 : detail.trace) :
  detail.mappings_created (w1 ++ w2)
  = (detail.mappings_created w1 + detail.mappings_created w2)%nat.
Proof.
  unfold detail.mappings_created. now rewrite filter_app, length_app.
Qed.

(** ** [unmap] *)

Lemma detail_unmap_unmapped (s : detail.basic_mmap) (w : detail.trace) :
  detail.data_ s = None -> detail.unmap s w = (s, w).
Proof. intros H. unfold detail.unmap. now rewrite H. Qed.

Lemma detail_unmap_data (s : detail.basic_mmap) (w : detail.trace) :
  detail.data_ (fst (detail.unmap s w)) = None.
Proof.
  unfold detail.unmap. destruct (detail.data_ s) eqn:E; simpl; [reflexivity | exact E].
Qed.

(** [unmap] issues no mapping call. *)
Lemma detail_unmap_mappings_created (s : detail.basic_mmap) (w : detail.trace) :
  detail.mappings_created (snd (detail.unmap s w)) = detail.mappings_created w.
Proof.
  unfold detail.unmap. destruct (detail.data_ s); simpl; [| reflexivity].
  rewrite mappings_created_app.
  match goal with
  | |- (_ + ?k)%nat = _ => replace k with 0%nat; [lia |]
  end.
  now destruct (detail.is_handle_internal_ s).
Qed.

Lemma unmap_impl (m : basic_mmap) (w : detail.trace) :
  unmap m w = ({| impl_ := fst (detail.unmap (impl_ m) w) |},
               snd (detail.unmap (impl_ m) w)).
Proof. unfold unmap. now destruct (detail.unmap (impl_ m) w). Qed.

(** C8.  [unmap] leaves the instance unmapped, with a null [data()]; a
    second [unmap] changes neither the instance nor the OS trace; on an
    unmapped instance it does nothing at all, and on a mapped one it issues
    the OS call that releases the mapped region. *)
Theorem unmap_idempotent (m : basic_mmap) (w : detail.trace) :
  let '(m1, w1) := unmap m w in
  is_open m1 = false /\
  data m1 = None /\
  unmap m1 w1 = (m1, w1) /\
  match data m with
  | None => (m1, w1) = (m, w)
  | Some p =>
      is_open m = true /\
      exists closing,
        w1 = w ++ detail.ev_munmap (p - detail.offset_delta_ (impl_ m))
                                   (detail.mapped_length_ (impl_ m)) :: closing
        /\ detail.mappings_created closing = 0%nat
  end.
Proof.
  rewrite unmap_impl.
  pose proof (detail_unmap_data (impl_ m) w) as Hnull.
  repeat split.
  - unfold is_open, detail.is_open. simpl. now rewrite Hnull.
  - exact Hnull.
  - rewrite unmap_impl. simpl.
    now rewrite (detail_unmap_unmapped _ _ Hnull).
  - destruct m as [s]. unfold data, detail.data, is_open, detail.is_open.
    simpl. unfold detail.unmap.
    destruct (detail.data_ s) as [p |] eqn:E; simpl.
    + split; [reflexivity |].
      eexists. split; [reflexivity |].
      now destruct (detail.is_handle_internal_ s).
    + reflexivity.
Qed.

(** ** [map] *)

(** The shared mapping step either fails and changes nothing, or creates
    exactly one OS mapping and leaves the instance mapped. *)
Lemma map_region_result (P : detail.Platform) (s : detail.basic_mmap)
    (w : detail.trace) (h : detail.handle) (internal : bool)
    (offset num_bytes : Z) (mode : access_mode) :
  let '(s', w', e) := detail.map_region P s w h internal offset num_bytes mode in
  match e with
  | Some _ => s' = s /\ w' = w
  | None =>
      detail.is_open s' = true /\
      detail.mappings_created w' = S (detail.mappings_created w)
  end.
Proof.
  unfold detail.map_region.
  destruct (detail.calculate_region P h offset num_bytes) as [e | r].
  - now split.
  - destruct (detail.os_mmap P h _ _ mode) as [base |].
    + split; [reflexivity |].
      rewrite detail_unmap_mappings_created. count_events.
    + now split.
Qed.

(** What a call of [map] does, for either kind of token. *)
Lemma map_result (P : detail.Platform) (A : access_mode) (m : basic_mmap)
    (w : detail.trace) (token : MappingToken) (offset num_bytes : Z) :
  let '(m', w', e) := map P A m w token offset num_bytes in
  match e with
  | Some _ =>
      m' = m /\ detail.mappings_created w' = detail.mappings_created w
  | None =>
      if num_bytes =? 0 then (m', w') = unmap m w
      else is_open m' = true /\
           detail.mappings_created w' = S (detail.mappings_created w)
  end.
Proof.
  destruct m as [s]. rewrite unmap_impl.
  destruct token as [path | h]; unfold map, map_path, map_handle; simpl.
  - unfold detail.map_path.
    destruct (num_bytes =? 0) eqn:Hz.
    + now destruct (detail.unmap s w).
    + destruct (detail.open_file P path A) as [h |]; [| now split].
      pose proof (map_region_result P s (w ++ [detail.ev_open path h]) h true
                    offset num_bytes A) as H.
      destruct (detail.map_region P s (w ++ [detail.ev_open path h]) h true
                  offset num_bytes A) as [[s' w'] [e |]].
      * destruct H as [_ ->]. split; [reflexivity |].
        count_events.
      * destruct H as [Ho Hc]. split; [exact Ho |].
        rewrite Hc. count_events.
  - unfold detail.map_handle.
    destruct (num_bytes =? 0) eqn:Hz.
    + now destruct (detail.unmap s w).
    + pose proof (map_region_result P s w h false offset num_bytes A) as H.
      destruct (detail.map_region P s w h false offset num_bytes A)
        as [[s' w'] [e |]].
      * destruct H as [-> ->]. now split.
      * exact H.
Qed.

(** ** The unmapped state is the default state *)

Lemma set_length_returned (cs : Z) (m m' : basic_mmap) (n : Z) :
  set_length cs m n = returned m' ->
  (detail.mapped_length_ (impl_ m)
     <? byte_size cs n + detail.offset_delta_ (impl_ m)) = false /\
  detail.set_length (impl_ m) (byte_size cs n) = returned (impl_ m').
Proof.
  unfold set_length, detail.set_length.
  destruct (_ <? _); simpl; [discriminate |].
  intros [= <-]. now split.
Qed.

Lemma set_offset_returned (cs : Z) (m m' : basic_mmap) (n : Z) :
  set_offset cs m n = returned m' ->
  (detail.mapped_length_ (impl_ m) <? byte_size cs n) = false /\
  detail.set_offset (impl_ m) (byte_size cs n) = returned (impl_ m').
Proof.
  unfold set_offset, detail.set_offset.
  destruct (_ <? _); simpl; [discriminate |].
  intros [= <-]. now split.
Qed.

(** Every unmapped state an instance can reach is the default one: in it all
    size queries return 0. *)
Lemma reachable_unmapped_default (P : detail.Platform) (A : access_mode)
    (cs : Z) (m : basic_mmap) :
  reachable P A cs m -> is_open m = false -> m = default_basic_mmap.
Proof.
  induction 1 as [| m w token offset num_bytes Hr IH | m w Hr IH
                  | m n m' Hr IH Hset | m n m' Hr IH Hset]; intros Hclosed.
  - reflexivity.
  - pose proof (map_result P A m w token offset num_bytes) as H.
    destruct (map P A m w token offset num_bytes) as [[m' w'] e].
    simpl in *. destruct e as [e |].
    + destruct H as [-> _]. auto.
    + destruct (num_bytes =? 0).
      * rewrite unmap_impl in H. injection H as -> _.
        unfold is_open, detail.is_open in IH.
        destruct m as [s]. simpl in *. unfold detail.unmap in *.
        destruct (detail.data_ s); [reflexivity | now apply IH].
      * destruct H as [Ho _]. congruence.
  - rewrite unmap_impl in *. simpl in *.
    unfold is_open, detail.is_open in IH.
    destruct m as [s]. simpl in *. unfold detail.unmap in *.
    destruct (detail.data_ s); [reflexivity | now apply IH].
  - apply set_length_returned in Hset as [Hbound Hset].
    unfold detail.set_length in Hset. rewrite Hbound in Hset.
    injection Hset as Hset.
    destruct m' as [s']. simpl in *. subst s'.
    unfold is_open, detail.is_open in *. simpl in Hclosed.
    rewrite (IH Hclosed) in *. simpl in *.
    pose proof (byte_size_nonneg cs n). apply Z.ltb_ge in Hbound.
    replace (byte_size cs n) with 0 by lia. reflexivity.
  - apply set_offset_returned in Hset as [Hbound Hset].
    unfold detail.set_offset in Hset. rewrite Hbound in Hset.
    injection Hset as Hset.
    destruct m' as [s']. simpl in *. subst s'.
    unfold is_open, detail.is_open in *. simpl in Hclosed.
    rewrite (IH Hclosed) in *. simpl in *.
    pose proof (byte_size_nonneg cs n). apply Z.ltb_ge in Hbound.
    replace (byte_size cs n) with 0 by lia. reflexivity.
Qed.

Lemma map_zero_length (P : detail.Platform) (A : access_mode) (m : basic_mmap)
    (w : detail.trace) (token : MappingToken) (offset : Z) :
  map P A m w token offset 0 = (unmap m w, None).
Proof.
  rewrite unmap_impl.
  destruct token; unfold map, map_path, map_handle,
    detail.map_path, detail.map_handle; simpl;
    now destruct (detail.unmap (impl_ m) w).
Qed.

(** C6.  On every instance reached through the public members, [map] with a
    requested length of 0 creates no OS mapping, whatever the offset and the
    token, and leaves the instance unmapped: [is_open()] is false and
    [empty()] is true.  And [empty()] is true exactly when the instance is
    unmapped or its requested length is 0. *)
Theorem zero_length_map_leaves_unmapped (P : detail.Platform)
    (A : access_mode) (cs : Z) (m : basic_mmap) :
  reachable P A cs m ->
  (forall w token offset,
     let '(m', w', _) := map P A m w token offset 0 in
     is_open m' = false /\ empty m' = true /\
     detail.mappings_created w' = detail.mappings_created w) /\
  (empty m = true <-> is_open m = false \/ detail.length (impl_ m) = 0).
Proof.
  intros Hr. split.
  - intros w token offset. rewrite map_zero_length.
    assert (Hclosed : is_open (fst (unmap m w)) = false).
    { rewrite unmap_impl. unfold is_open, detail.is_open. simpl.
      now rewrite detail_unmap_data. }
    pose proof (reachable_unmapped_default P A cs _ (reach_unmap P A cs m w Hr)
                  Hclosed) as Hdefault.
    rewrite unmap_impl in *. simpl in *.
    repeat split.
    + exact Hclosed.
    + now rewrite Hdefault.
    + apply detail_unmap_mappings_created.
  - unfold empty, detail.empty, detail.length. split.
    + intros H. right. now apply Z.eqb_eq.
    + intros [H | H].
      * now rewrite (reachable_unmapped_default P A cs m Hr H).
      * now apply Z.eqb_eq.
Qed.

(** C6 at an instance mapped over bytes 10 to 20 of [data.bin]. *)
Lemma zero_length_map_leaves_unmapped_witness :
  let m := fst (fst (map demo_platform read default_basic_mmap []
                       (token_path "data.bin") 10 10)) in
  reachable demo_platform read 1 m /\
  is_open m = true /\
  (forall w token offset,
     let '(m', w', _) := map demo_platform read m w token offset 0 in
     is_open m' = false /\ empty m' = true /\
     detail.mappings_created w' = detail.mappings_created w) /\
  (empty m = true <-> is_open m = false \/ detail.length (impl_ m) = 0).
Proof.
  assert (Hr : reachable demo_platform read 1
                 (fst (fst (map demo_platform read default_basic_mmap []
                              (token_path "data.bin") 10 10)))).
  { apply reach_map. apply reach_default. }
  split; [exact Hr |].
  split; [reflexivity |].
  exact (zero_length_map_leaves_unmapped demo_platform read 1 _ Hr).
Defined.



(** ** [set_length] and [set_offset] *)

(** The instance used below is one the public members produce. *)
Lemma demo_mapped_reachable (cs : Z) :
  reachable demo_platform read cs demo_mapped.
Proof. unfold demo_mapped. apply reach_map. apply reach_default. Qed.

(** C4.  The class's [set_length] is declared [noexcept]: it returns, with
    only the conceptual length changed, exactly when the byte size plus
    [offset_delta] fits the mapped length, and otherwise the
    [std::invalid_argument] thrown underneath never reaches the caller, the
    program is terminated.  So it is for a request of 5000 bytes on a
    mapping of 4096. *)
Theorem set_length_out_of_bounds_terminates :
  (forall cs m n,
     match set_length cs m n with
     | returned m' =>
         (detail.mapped_length_ (impl_ m)
            <? byte_size cs n + detail.offset_delta_ (impl_ m)) = false /\
         detail.length_ (impl_ m') = byte_size cs n /\
         detail.data_ (impl_ m') = detail.data_ (impl_ m) /\
         detail.mapped_length_ (impl_ m') = detail.mapped_length_ (impl_ m) /\
         detail.offset_delta_ (impl_ m') = detail.offset_delta_ (impl_ m)
     | thrown _ _ => False
     | terminated =>
         (detail.mapped_length_ (impl_ m)
            <? byte_size cs n + detail.offset_delta_ (impl_ m)) = true
     end) /\
  detail.mapped_length_ (impl_ demo_mapped) = 4096 /\
  detail.offset_delta_ (impl_ demo_mapped) = 0 /\
  detail.set_length (impl_ demo_mapped) (byte_size 1 5000)
  = thrown exn_invalid_argument (impl_ demo_mapped) /\
  set_length 1 demo_mapped 5000 = terminated.
Proof.
  split; [| repeat split; reflexivity].
  intros cs m n. unfold set_length, detail.set_length.
  destruct (_ <? _); simpl; repeat split; reflexivity.
Qed.

(** Whenever [set_length] returns, [size()] is the element count passed in,
    for every element size, as long as the byte count fits [size_type]. *)
Lemma set_length_then_size (cs : Z) (m m' : basic_mmap) (n : Z) :
  1 <= cs -> 0 <= n -> n * 2 ^ (cs - 1) < size_modulus ->
  set_length cs m n = returned m' -> size cs m' = n.
Proof.
  intros Hcs Hn Hfit Hset.
  apply set_length_returned in Hset as [Hbound Hset].
  unfold detail.set_length in Hset. rewrite Hbound in Hset.
  injection Hset as Hset.
  unfold size, detail.length. rewrite <- Hset. simpl.
  now apply char_size_byte_size.
Qed.

Lemma set_offset_then_offset (cs : Z) (m m' : basic_mmap) (n : Z) :
  1 <= cs -> 0 <= n -> n * 2 ^ (cs - 1) < size_modulus ->
  set_offset cs m n = returned m' -> offset cs m' = n.
Proof.
  intros Hcs Hn Hfit Hset.
  apply set_offset_returned in Hset as [Hbound Hset].
  unfold detail.set_offset in Hset. rewrite Hbound in Hset.
  injection Hset as Hset.
  unfold offset, detail.offset. rewrite <- Hset. simpl.
  now apply char_size_byte_size.
Qed.

(** C5.  With one-byte elements 1024 elements round-trip through
    [set_length] and [size()], and 16 through [set_offset] and [offset()].
    With four-byte elements they do not: 1024 elements are 4096 bytes and
    fit the 4096 mapped bytes, but [byte_size] makes them 8192, the request
    is refused and no [size()] of 1024 follows; likewise for an offset of
    1024 elements. *)
Theorem set_length_four_byte_elements_rejects_in_bounds_length :
  (exists m', set_length 1 demo_mapped 1024 = returned m' /\ size 1 m' = 1024) /\
  (exists m', set_offset 1 demo_mapped 16 = returned m' /\ offset 1 m' = 16) /\
  detail.mapped_length_ (impl_ demo_mapped) = 4096 /\
  detail.offset_delta_ (impl_ demo_mapped) = 0 /\
  1024 * 4 + detail.offset_delta_ (impl_ demo_mapped)
    <= detail.mapped_length_ (impl_ demo_mapped) /\
  byte_size 4 1024 = 8192 /\
  set_length 4 demo_mapped 1024 = terminated /\
  set_offset 4 demo_mapped 1024 = terminated.
Proof.
  split; [eexists; split; reflexivity |].
  split; [eexists; split; reflexivity |].
  split; [reflexivity |]. split; [reflexivity |].
  split; [vm_compute; discriminate |].
  repeat split; reflexivity.
Qed.

(** ** The factory functions *)

(** A [size_type] value survives the conversion to [int64_t] and back. *)
Lemma size_of_int64_of_size (z : Z) :
  0 <= z < size_modulus -> size_of_int64 (int64_of_size z) = z.
Proof.
  intros Hz. unfold size_of_int64, int64_of_size.
  destruct (z <? 2 ^ 63).
  - now apply Z.mod_small.
  - rewrite <- (Z.mod_add _ 1) by discriminate.
    replace (z - size_modulus + 1 * size_modulus) with z by lia.
    now apply Z.mod_small.
Qed.

(** C9.  [make_mmap_source] and [make_mmap_sink], called with [size_type]
    arguments, and [make_mmap], called with [int64_t] ones, return what
    default-constructing the mapping type and calling [map] on it with the
    same arguments gives: the instance, and the failure, if any, in the
    error value; no outcome of theirs is an exception. *)
Theorem factories_default_construct_then_map (P : detail.Platform)
    (w : detail.trace) (token : MappingToken) (offset num_bytes : Z) :
  0 <= offset < size_modulus ->
  0 <= num_bytes < size_modulus ->
  make_mmap_source P w token offset num_bytes
  = default_construct_then_map P read w token offset num_bytes /\
  make_mmap_sink P w token offset num_bytes
  = default_construct_then_map P write w token offset num_bytes /\
  (forall A i j,
     make_mmap P A w token i j
     = default_construct_then_map P A w token
         (size_of_int64 i) (size_of_int64 j)).
Proof.
  intros Hoff Hnum.
  unfold make_mmap_source, make_mmap_sink, make_mmap, default_construct_then_map.
  rewrite !size_of_int64_of_size by assumption.
  repeat split.
Qed.

(** C9 for [data.bin], offset 10 and the largest [size_type] value. *)
Lemma factories_default_construct_then_map_witness :
  (0 <= 10 < size_modulus) /\
  (0 <= size_modulus - 1 < size_modulus) /\
  make_mmap_source demo_platform [] (token_path "data.bin") 10 (size_modulus - 1)
  = default_construct_then_map demo_platform read [] (token_path "data.bin")
      10 (size_modulus - 1) /\
  make_mmap_sink demo_platform [] (token_path "data.bin") 10 (size_modulus - 1)
  = default_construct_then_map demo_platform write [] (token_path "data.bin")
      10 (size_modulus - 1) /\
  (forall A i j,
     make_mmap demo_platform A [] (token_path "data.bin") i j
     = default_construct_then_map demo_platform A [] (token_path "data.bin")
         (size_of_int64 i) (size_of_int64 j)).
Proof.
  assert (H1 : 0 <= 10 < size_modulus) by (vm_compute; split; [discriminate | reflexivity]).
  assert (H2 : 0 <= size_modulus - 1 < size_modulus)
    by (vm_compute; split; [discriminate | reflexivity]).
  split; [exact H1 |]. split; [exact H2 |].
  exact (factories_default_construct_then_map demo_platform []
           (token_path "data.bin") 10 (size_modulus - 1) H1 H2).
Defined.

(** ** The path-taking constructor *)

(** C10.  The path-taking constructor throws exactly when its call of [map]
    sets the error, and what it throws is that [std::error_code] itself, not
    an exception derived from [std::exception]; the object is then still in
    the default-constructed, unmapped state.  Otherwise it returns the
    instance [map] produced. *)
Theorem path_ctor_throws_error_code (P : detail.Platform) (A : access_mode)
    (w : detail.trace) (path : string) (offset num_bytes : Z) :
  let '(m, w', error) := map_path P A default_basic_mmap w path offset num_bytes in
  match error with
  | Some e =>
      basic_mmap_from_path P A w path offset num_bytes
      = thrown (exn_error_code e) (default_basic_mmap, w') /\
      derives_from_std_exception (exn_error_code e) = false /\
      is_open default_basic_mmap = false
  | None =>
      basic_mmap_from_path P A w path offset num_bytes = returned (m, w')
  end.
Proof.
  pose proof (map_result P A default_basic_mmap w (token_path path)
                offset num_bytes) as H.
  unfold basic_mmap_from_path. simpl in H.
  destruct (map_path P A default_basic_mmap w path offset num_bytes)
    as [[m w'] [e |]].
  - destruct H as [-> _]. repeat split.
  - reflexivity.
Qed.

(** * Further properties of the code in [mmap.hpp] *)

(** ** More on [char_size] and [byte_size] *)

Lemma pow2_above_successor (k : Z) : 2 <= k -> k + 1 < 2 ^ k.
Proof.
  intros Hk.
  destruct (Z.eq_dec k 2) as [-> | Hne]; [reflexivity |].
  assert (Hlin : k - 1 < 2 ^ (k - 1)) by (apply Z.pow_gt_lin_r; lia).
  replace k with (Z.succ (k - 1)) at 2 by lia.
  rewrite Z.pow_succ_r by lia. lia.
Qed.

(** X1.  Converting an element count to bytes and back gives the count
    again, for every element size, as long as the byte count fits
    [size_type]: the two shifts are inverse to each other even where neither
    is the conversion by [sizeof(CharT)]. *)
Theorem char_size_inverts_byte_size (cs n : Z) :
  1 <= cs -> 0 <= n -> n * 2 ^ (cs - 1) < size_modulus ->
  char_size cs (byte_size cs n) = n.
Proof. intros Hcs Hn Hfit. now apply char_size_byte_size. Qed.

(** X1 for 5 elements of 2 bytes. *)
Lemma char_size_inverts_byte_size_witness :
  1 <= 2 /\ 0 <= 5 /\ 5 * 2 ^ (2 - 1) < size_modulus /\
  char_size 2 (byte_size 2 5) = 5.
Proof.
  assert (H1 : 1 <= 2) by lia.
  assert (H2 : 0 <= 5) by lia.
  assert (H3 : 5 * 2 ^ (2 - 1) < size_modulus) by reflexivity.
  split; [exact H1 |]. split; [exact H2 |]. split; [exact H3 |].
  exact (char_size_inverts_byte_size 2 5 H1 H2 H3).
Defined.

(** X2.  For element sizes from 1 to 64 bytes, where the shifts are
    defined, converting a byte count to elements and back rounds it down to
    a multiple of the shift's unit: the remainder is dropped, so the result
    never exceeds the byte count and equals it exactly when the byte count
    is such a multiple. *)
Theorem byte_size_char_size_rounds_down (cs b : Z) :
  1 <= cs <= 64 -> 0 <= b < size_modulus ->
  byte_size cs (char_size cs b) = b - b mod 2 ^ (cs - 1) /\
  0 <= byte_size cs (char_size cs b) <= b /\
  (byte_size cs (char_size cs b) = b <-> b mod 2 ^ (cs - 1) = 0).
Proof.
  intros [Hcs _] Hb.
  assert (Hpow : 0 < 2 ^ (cs - 1)) by (apply Z.pow_pos_nonneg; lia).
  pose proof (Z.mod_pos_bound b _ Hpow) as Hmod.
  pose proof (Z.mod_le b _ (proj1 Hb) Hpow) as Hle.
  pose proof (Z.div_mod b (2 ^ (cs - 1)) (Z.neq_sym _ _ (Z.lt_neq _ _ Hpow)))
    as Hdiv.
  assert (Heq : byte_size cs (char_size cs b) = b - b mod 2 ^ (cs - 1)).
  { rewrite byte_size_mul_pow2, char_size_div_pow2 by assumption.
    rewrite wrap_size_small by lia. lia. }
  rewrite Heq. repeat split; lia.
Qed.

(** X2 for 7 bytes and 2-byte elements: 3 elements, 6 bytes. *)
Lemma byte_size_char_size_rounds_down_witness :
  1 <= 2 <= 64 /\ 0 <= 7 < size_modulus /\
  byte_size 2 (char_size 2 7) = 7 - 7 mod 2 ^ (2 - 1) /\
  0 <= byte_size 2 (char_size 2 7) <= 7 /\
  (byte_size 2 (char_size 2 7) = 7 <-> 7 mod 2 ^ (2 - 1) = 0).
Proof.
  assert (H1 : 1 <= 2 <= 64) by lia.
  assert (H2 : 0 <= 7 < size_modulus) by (split; [lia | reflexivity]).
  split; [exact H1 |]. split; [exact H2 |].
  exact (byte_size_char_size_rounds_down 2 7 H1 H2).
Defined.

(** X3.  For element sizes from 1 to 64 bytes, where the shift is defined,
    [char_size] is the division by [sizeof(CharT)] on every byte count
    exactly when the element size is 1 or 2. *)
Theorem char_size_is_division_iff (cs : Z) :
  1 <= cs <= 64 ->
  ((forall b, 0 <= b -> char_size cs b = b / cs) <-> cs = 1 \/ cs = 2).
Proof.
  intros Hcs. split.
  - intros Hall.
    destruct (Z_lt_le_dec cs 3) as [Hsmall | Hbig]; [lia |].
    exfalso.
    pose proof (pow2_above_successor (cs - 1) ltac:(lia)) as Hpow.
    specialize (Hall cs ltac:(lia)).
    rewrite char_size_div_pow2 in Hall by lia.
    rewrite Z.div_small in Hall by lia.
    rewrite Z.div_same in Hall by lia.
    discriminate.
  - intros [-> | ->]; intros b _; now rewrite char_size_div_pow2.
Qed.

(** X3 for 4-byte elements. *)
Lemma char_size_is_division_iff_witness :
  1 <= 4 <= 64 /\
  ((forall b, 0 <= b -> char_size 4 b = b / 4) <-> 4 = 1 \/ 4 = 2).
Proof.
  assert (H : 1 <= 4 <= 64) by lia.
  split; [exact H |].
  exact (char_size_is_division_iff 4 H).
Defined.

(** X4.  For element sizes from 1 to 64 bytes, [byte_size] is the
    multiplication by [sizeof(CharT)] on every element count whose byte
    count fits [size_type] exactly when the element size is 1 or 2. *)
Theorem byte_size_is_multiplication_iff (cs : Z) :
  1 <= cs <= 64 ->
  ((forall n, 0 <= n -> n * cs < size_modulus -> byte_size cs n = n * cs)
   <-> cs = 1 \/ cs = 2).
Proof.
  intros Hcs. split.
  - intros Hall.
    destruct (Z_lt_le_dec cs 3) as [Hsmall | Hbig]; [lia |].
    exfalso.
    pose proof (pow2_above_successor (cs - 1) ltac:(lia)) as Hpow.
    assert (Hfit : 2 ^ (cs - 1) < size_modulus).
    { unfold size_modulus, size_bits. apply Z.pow_lt_mono_r; lia. }
    assert (Hcs64 : 1 * cs < size_modulus).
    { unfold size_modulus, size_bits.
      assert (2 ^ 6 <= 2 ^ 64) by (apply Z.pow_le_mono_r; lia).
      change (2 ^ 6) with 64 in *. lia. }
    specialize (Hall 1 ltac:(lia) Hcs64).
    rewrite byte_size_mul_pow2 in Hall by lia.
    rewrite wrap_size_small in Hall by lia.
    lia.
  - intros [-> | ->]; intros n Hn Hfit;
      rewrite byte_size_mul_pow2 by lia;
      apply wrap_size_small; simpl; lia.
Qed.

(** X4 for 4-byte elements. *)
Lemma byte_size_is_multiplication_iff_witness :
  1 <= 4 <= 64 /\
  ((forall n, 0 <= n -> n * 4 < size_modulus -> byte_size 4 n = n * 4)
   <-> 4 = 1 \/ 4 = 2).
Proof.
  assert (H : 1 <= 4 <= 64) by lia.
  split; [exact H |].
  exact (byte_size_is_multiplication_iff 4 H).
Defined.

(** X5.  The size accessors keep the order of the byte counts they convert:
    when the requested byte length is non-negative and at most the mapped
    byte length, [size()] (and [length()]) is non-negative, at most
    [mapped_length()], and at most the byte length itself. *)
Theorem size_at_most_mapped_length (cs : Z) (m : basic_mmap) :
  1 <= cs ->
  0 <= detail.length (impl_ m) <= detail.mapped_length (impl_ m) ->
  0 <= size cs m <= mapped_length cs m /\
  length cs m = size cs m /\
  size cs m <= detail.length (impl_ m).
Proof.
  intros Hcs [Hlo Hhi].
  assert (Hpow : 0 < 2 ^ (cs - 1)) by (apply Z.pow_pos_nonneg; lia).
  unfold size, length, mapped_length.
  rewrite !char_size_div_pow2 by assumption.
  repeat split.
  - now apply Z.div_pos.
  - now apply Z.div_le_mono.
  - apply Z.div_le_upper_bound; [assumption |]. nia.
Qed.

(** X5 for the first 4096 bytes of [data.bin] seen as 2-byte elements. *)
Lemma size_at_most_mapped_length_witness :
  1 <= 2 /\
  0 <= detail.length (impl_ demo_mapped) <= detail.mapped_length (impl_ demo_mapped) /\
  0 <= size 2 demo_mapped <= mapped_length 2 demo_mapped /\
  length 2 demo_mapped = size 2 demo_mapped /\
  size 2 demo_mapped <= detail.length (impl_ demo_mapped).
Proof.
  assert (H1 : 1 <= 2) by lia.
  assert (H2 : 0 <= detail.length (impl_ demo_mapped)
               <= detail.mapped_length (impl_ demo_mapped))
    by (vm_compute; split; discriminate).
  split; [exact H1 |]. split; [exact H2 |].
  exact (size_at_most_mapped_length 2 demo_mapped H1 H2).
Defined.

(** ** The path-taking constructor and the factory *)

(** X7.  The path-taking constructor and [make_mmap] called with the same
    path, offset and length perform the same mapping on a fresh instance and
    leave the same OS trace; they differ only in how a failure is delivered:
    the error value the factory reports is the one the constructor throws,
    and when the factory reports none the constructor returns the factory's
    instance. *)
Theorem path_ctor_agrees_with_make_mmap (P : detail.Platform)
    (A : access_mode) (w : detail.trace) (path : string)
    (offset num_bytes : Z) :
  0 <= offset < size_modulus ->
  0 <= num_bytes < size_modulus ->
  let '(m, w', error) :=
    make_mmap P A w (token_path path)
      (int64_of_size offset) (int64_of_size num_bytes) in
  basic_mmap_from_path P A w path offset num_bytes
  = match error with
    | Some e => thrown (exn_error_code e) (m, w')
    | None => returned (m, w')
    end.
Proof.
  intros Hoff Hnum.
  unfold make_mmap, basic_mmap_from_path, map.
  rewrite !size_of_int64_of_size by assumption.
  destruct (map_path P A default_basic_mmap w path offset num_bytes)
    as [[m w'] [e |]]; reflexivity.
Qed.

(** X7 for bytes 10 to 20 of [data.bin], mapped for writing. *)
Lemma path_ctor_agrees_with_make_mmap_witness :
  (0 <= 10 < size_modulus) /\
  (let '(m, w', error) :=
     make_mmap demo_platform write [] (token_path "data.bin")
       (int64_of_size 10) (int64_of_size 10) in
   basic_mmap_from_path demo_platform write [] "data.bin" 10 10
   = match error with
     | Some e => thrown (exn_error_code e) (m, w')
     | None => returned (m, w')
     end).
Proof.
  assert (H : 0 <= 10 < size_modulus)
    by (vm_compute; split; [discriminate | reflexivity]).
  split; [exact H |].
  exact (path_ctor_agrees_with_make_mmap demo_platform write []
           "data.bin" 10 10 H H).
Defined.
